(** * tinacms: the git media store and the Wysiwyg ProseMirror hook

    A shallow embedding of

    - [packages/gatsby-tinacms-git/media-git.ts] (class [GitMediaStore]),
    - [packages/@tinacms/fields/src/Wysiwyg/useProsemirror.tsx]
      (hook [useProsemirror]),
    - the Wysiwyg [createEditorState] function,

    followed by the properties proved about them.  Asynchronous methods and
    callbacks are functions in a state-and-exception monad over an explicit
    world; code that lives outside these three files (the git client, the
    ProseMirror engine, the translator) is taken as a parameter. *)

From Stdlib Require Import ZArith Lia.
From stdpp Require Import base option list strings.

Local Open Scope string_scope.
Local Open Scope list_scope.

(** ** JavaScript values, exceptions and the effect monad *)

Module Js.

(** The values that [JSON.parse] can build, together with [undefined],
    which is what reading a missing property yields.  A number is kept as
    it is written, nothing here computes with one; objects keep their
    members in source order. *)
#[local] Unset Elimination Schemes.
Inductive value : Type :=
| Undefined
| Null
| Bool (b : bool)
| Num (literal : string)
| Str (s : string)
| Arr (items : list value)
| Obj (members : list (string * value)).
#[local] Set Elimination Schemes.

(** What a throw, or the rejection of an awaited promise, carries. *)
Inductive error : Type :=
| Rejected (reason : string)
| SyntaxError
| TypeError.

Inductive outcome (A : Type) : Type :=
| Ok (a : A)
| Throw (e : error).
Arguments Ok {A} a.
Arguments Throw {A} e.

(** A computation over a world [W]: it always leaves a world behind, also
    when it throws. *)
Definition M (W A : Type) : Type := W -> outcome A * W.

Definition ret {W A} (a : A) : M W A := fun w => (Ok a, w).

Definition throw {W A} (e : error) : M W A := fun w => (Throw e, w).

Definition bind {W A B} (m : M W A) (k : A -> M W B) : M W B :=
  fun w =>
    match m w with
    | (Ok a, w') => k a w'
    | (Throw e, w') => (Throw e, w')
    end.

Definition lift {W A} (o : outcome A) : M W A := fun w => (o, w).

Definition modify {W} (f : W -> W) : M W unit := fun w => (Ok tt, f w).

Definition gets {W A} (f : W -> A) : M W A := fun w => (Ok (f w), w).

(** [o.key] for an object built by [JSON.parse]: a later duplicate member
    overwrites an earlier one. *)
Fixpoint member (key : string) (members : list (string * value)) : value :=
  match members with
  | [] => Undefined
  | (k, v) :: rest =>
      match member key rest with
      | Undefined => if String.eqb k key then v else Undefined
      | later => later
      end
  end.

(** The property read [v.key].  Reading from [null] or [undefined] throws a
    TypeError; primitives and arrays have no such own property. *)
Definition get (v : value) (key : string) : outcome value :=
  match v with
  | Undefined | Null => Throw TypeError
  | Obj members => Ok (member key members)
  | Bool _ | Num _ | Str _ | Arr _ => Ok Undefined
  end.

End Js.

Export Js.

Declare Scope js_scope.
Delimit Scope js_scope with js.
Notation "x <- c ;; k" := (bind c (fun x => k))
  (at level 100, c at next level, right associativity) : js_scope.
Notation "c ;;; k" := (bind c (fun _ => k))
  (at level 100, k at level 200, right associativity) : js_scope.

(** ** media-git.ts *)

Module GitMedia.

(** [Media], from tinacms: the three fields the store fills in.  The type
    annotation [data: { filename: string }] in [persist] is not checked
    when the code runs, so a field holds whatever value was read. *)
Record Media : Type := mkMedia {
  src : value;
  previewSrc : value;
  reference : value
}.

(** A browser [File]; the store hands it on without looking inside. *)
Record File : Type := mkFile {
  file_name : string;
  file_data : string
}.

Record MediaUploadOptions : Type := mkUpload {
  file : File;
  directory : string
}.

(** The argument of [GitClient.writeMediaToDisk]. *)
Record WriteRequest : Type := mkWrite {
  wr_directory : string;
  wr_content : File
}.

(** A fetch [Response], reduced to what [response.json()] resolves to:
    [None] is a body that is not JSON. *)
Record Response : Type := mkResponse {
  status : Z;
  parsed_body : option value
}.

(** [@tinacms/git-client] is not part of these sources: a client is any
    object with a [writeMediaToDisk] method, which answers a request from
    the client's current state and moves to a next state. *)
Class GitClient (C : Type) : Type :=
  writeMediaToDisk : WriteRequest -> C -> outcome Response * C.

(** The fields of a [GitMediaStore] object whose client has type [C]. *)
Record GitMediaStore (C : Type) : Type := mkStore {
  accept : string;
  client : C
}.
Arguments mkStore {C} accept client.
Arguments accept {C} g.
Arguments client {C} g.

(** The world a method runs in: the store object itself ([this]), the
    calls made on the client with what each one answered, and the lines
    written with [console.log]. *)
Record World (C : Type) : Type := mkWorld {
  this : GitMediaStore C;
  calls : list (WriteRequest * outcome Response);
  console : list (list Media)
}.
Arguments mkWorld {C} this calls console.
Arguments this {C} w.
Arguments calls {C} w.
Arguments console {C} w.

(** [await response.json()] *)
Definition response_json (response : Response) : outcome value :=
  match parsed_body response with
  | Some data => Ok data
  | None => Throw SyntaxError
  end.

(** The methods of the class. *)
Module GitMediaStore.
Section Methods.
Context {C : Type} `{GitClient C}.

(** [accept = '*'] and the constructor, whose body is empty. *)
Definition new (c : C) : GitMediaStore C :=
  {| accept := "*"; client := c |}.

(** [await this.client.writeMediaToDisk(req)] *)
Definition call_writeMediaToDisk (req : WriteRequest)
    : M (World C) Response :=
  fun w =>
    let (answer, c') := writeMediaToDisk req (client (this w)) in
    (answer,
     {| this := {| accept := accept (this w); client := c' |};
        calls := calls w ++ [(req, answer)];
        console := console w |}).

(** [console.log(uploaded)] *)
Definition console_log (line : list Media) : M (World C) unit :=
  modify (fun w =>
    {| this := this w; calls := calls w; console := console w ++ [line] |}).

(** [async find()]; a caller may pass any arguments, the method declares
    none. *)
Definition find (args : list value) : M (World C) Media :=
  ret {| src := Str "test.jpg";
         previewSrc := Str "test.jpg";
         reference := Str "test.jpg" |}.

(** The [for ... of] loop of [persist] over the remaining [files], with
    [uploaded] as it stands. *)
Fixpoint persist_loop (files : list MediaUploadOptions)
    (uploaded : list Media) : M (World C) (list Media) :=
  match files with
  | [] => ret uploaded
  | {| file := file; directory := directory |} :: rest =>
      (response <- call_writeMediaToDisk
                     {| wr_directory := directory; wr_content := file |} ;;
       data <- lift (response_json response) ;;
       filename <- lift (get data "filename") ;;
       persist_loop rest
         (uploaded ++ [ {| src := filename;
                           previewSrc := filename;
                           reference := filename |} ]))%js
  end.

(** [async persist(files)] *)
Definition persist (files : list MediaUploadOptions)
    : M (World C) (list Media) :=
  (uploaded <- persist_loop files [] ;;
   console_log uploaded ;;;
   ret uploaded)%js.

(** [async delete()] *)
Definition delete : M (World C) unit := ret tt.

(** [async list()] *)
Definition list : M (World C) (Datatypes.list Media) := ret [].

End Methods.
End GitMediaStore.

(** The public methods, for statements about any sequence of calls. *)
Inductive call : Type :=
| CallList
| CallDelete
| CallFind (args : list value)
| CallPersist (files : list MediaUploadOptions).

Definition run_call {C} `{GitClient C} (c : call) (w : World C) : World C :=
  match c with
  | CallList => snd (GitMediaStore.list w)
  | CallDelete => snd (GitMediaStore.delete w)
  | CallFind args => snd (GitMediaStore.find args w)
  | CallPersist files => snd (GitMediaStore.persist files w)
  end.

Definition run_calls {C} `{GitClient C} (cs : list call) (w : World C)
    : World C :=
  fold_left (fun w c => run_call c w) cs w.

(** *** Vocabulary for the statements about [persist] *)

(** The request that [persist] builds for one upload. *)
Definition request_of (f : MediaUploadOptions) : WriteRequest :=
  {| wr_directory := directory f; wr_content := file f |}.

(** [uploaded_from files entries medias]: every upload of [files] was
    written, in order, each call answered with a response whose JSON body
    has a readable [filename]; [entries] are the calls with their answers
    and [medias] the descriptors built from them. *)
Inductive uploaded_from
    : list MediaUploadOptions ->
      list (WriteRequest * outcome Response) -> list Media -> Prop :=
| uploaded_nil : uploaded_from [] [] []
| uploaded_cons f files response data filename entries medias :
    response_json response = Ok data ->
    get data "filename" = Ok filename ->
    uploaded_from files entries medias ->
    uploaded_from (f :: files)
      ((request_of f, Ok response) :: entries)
      ({| src := filename; previewSrc := filename; reference := filename |}
         :: medias).

(** What the client answers to [reqs], made one after the other from the
    client state [c]. *)
Fixpoint answers {C} `{GitClient C} (reqs : list WriteRequest) (c : C)
    : list (outcome Response) :=
  match reqs with
  | [] => []
  | req :: rest =>
      let (answer, c') := writeMediaToDisk req c in
      answer :: answers rest c'
  end.

(** An answer that [persist] can turn into a descriptor: the write went
    through and its JSON body has a [filename] that can be read. *)
Definition readable (answer : outcome Response) : Prop :=
  exists response data filename,
    answer = Ok response /\
    response_json response = Ok data /\
    get data "filename" = Ok filename.

(** *** A client to run the store on

    It counts the files it has written and refuses an empty one. *)
Definition counting_client (req : WriteRequest) (written : nat)
    : outcome Response * nat :=
  if String.eqb (file_data (wr_content req)) ""
  then (Throw (Rejected "empty file"), written)
  else (Ok {| status := 200;
              parsed_body :=
                Some (Obj [("filename",
                            Str (wr_directory req ++ "/" ++
                                 file_name (wr_content req))%string)]) |},
        S written).

Definition logo : MediaUploadOptions :=
  {| file := {| file_name := "logo.png"; file_data := "PNG" |};
     directory := "static" |}.

Definition hero : MediaUploadOptions :=
  {| file := {| file_name := "hero.jpg"; file_data := "JFIF" |};
     directory := "content/img" |}.

Definition blank : MediaUploadOptions :=
  {| file := {| file_name := "blank.gif"; file_data := "" |};
     directory := "static" |}.

(** A new store on that client; nothing has been called or logged. *)
Definition fresh_world (written : nat) : World nat :=
  {| this := GitMediaStore.new written;
     calls := [];
     console := [] |}.

(** *** A client whose answers are not always what [persist] expects

    It writes every file, but answers ["raw.bin"] with a body that is not
    JSON, ["null.txt"] with the JSON text [null], and ["note.txt"] with an
    object that names the file under [path]. *)
Definition careless_client (req : WriteRequest) (written : nat)
    : outcome Response * nat :=
  let name := file_name (wr_content req) in
  (Ok {| status := 200;
         parsed_body :=
           if String.eqb name "raw.bin" then None
           else if String.eqb name "null.txt" then Some Null
           else if String.eqb name "note.txt"
                then Some (Obj [("path", Str name)])
                else Some (Obj [("filename", Str name)]) |},
   S written).

Definition raw : MediaUploadOptions :=
  {| file := {| file_name := "raw.bin"; file_data := "0101" |};
     directory := "static" |}.

Definition nothing : MediaUploadOptions :=
  {| file := {| file_name := "null.txt"; file_data := "-" |};
     directory := "static" |}.

Definition note : MediaUploadOptions :=
  {| file := {| file_name := "note.txt"; file_data := "hi" |};
     directory := "static" |}.

End GitMedia.

(** ** Wysiwyg: createEditorState and useProsemirror *)

Module Wysiwyg.

(** DOM nodes, editor views and the callbacks of the host form are objects
    known by their identity. *)
Definition DomNode : Type := nat.

Definition ViewId : Type := nat.

Definition Callback : Type := nat.

(** [interface Input] *)
Record Input : Type := mkInput {
  value : string;
  onChange : Callback;
  onFocus : Callback;
  onBlur : Callback
}.

(** What the hook takes from ProseMirror and from @tinacms/core without
    looking inside: schemas, document nodes, CMS plugins, and
    transactions with their [doc] and [docChanged] properties. *)
Class Engine : Type := {
  Schema : Type;
  PMNode : Type;
  TinaPlugin : Type;
  Transaction : Type;
  tr_doc : Transaction -> PMNode;
  tr_docChanged : Transaction -> bool
}.

(** The result of [buildKeymap(schema, plugins)], kept as the call that
    made it. *)
Inductive Bindings {E : Engine} : Type :=
| buildKeymap (schema : Schema) (plugins : list TinaPlugin).

(** A ProseMirror plugin, kept as the call or the constant that
    [createEditorState] writes for it. *)
Inductive Plugin {E : Engine} : Type :=
| inputRules (schema : Schema)
| keymap (bindings : Bindings)
| history
| links (schema : Schema)
| dropCursor (width : Z) (color : string)
| gapCursor
| tableEditing
| tablePlugin
| imagePlugin.

(** An [EditorState], as far as this code can tell states apart: what
    [EditorState.create] was given. *)
Record EditorState {E : Engine} : Type := EditorState_create {
  schema : Schema;
  doc : PMNode;
  plugins : list Plugin
}.

(** [Translator]: the two methods used here. *)
Record Translator {E : Engine} : Type := mkTranslator {
  nodeFromString : string -> PMNode;
  stringFromNode : PMNode -> string
}.

(** [EditorState.prototype.apply], from prosemirror-state. *)
Class Apply {E : Engine} : Type :=
  apply : EditorState -> Transaction -> EditorState.

(** [createEditorState(schema, translator, plugins, value)] *)
Definition createEditorState {E : Engine} (schema : Schema)
    (translator : Translator) (plugins : list TinaPlugin) (value : string)
    : EditorState :=
  EditorState_create _ schema (nodeFromString translator value)
    [ inputRules schema;
      keymap (buildKeymap schema plugins);
      history;
      links schema;
      dropCursor 2 "rgb(33, 224, 158)";
      gapCursor;
      tableEditing;
      tablePlugin;
      imagePlugin ].

(** What the [dispatchTransaction] function of a view has closed over,
    next to the view itself. *)
Record DispatchProps {E : Engine} : Type := mkDispatch {
  dp_input : Input;
  dp_translator : Translator
}.

(** The [docView] of a view, when it has one. *)
Inductive NodeView : Type := DocViewDesc.

(** An [EditorView]: its mount point, its state, its [docView] (null once
    the view has been destroyed) and its [dispatchTransaction] prop. *)
Record EditorView {E : Engine} : Type := mkView {
  dom : DomNode;
  state : EditorState;
  docView : option NodeView;
  dispatchProps : DispatchProps
}.

(** The object [{ view }] kept in the [editorView] state; each one is a
    new object. *)
Record ViewRef : Type := mkRef {
  ref_id : nat;
  view : ViewId
}.

(** The function returned by [setupEditor]: it has closed over the
    [editorView] of the render it was made in and over its [view]. *)
Record Cleanup : Type := mkCleanup {
  cl_editorView : option ViewRef;
  cl_view : ViewId
}.

(** What React keeps for one mounted [useProsemirror]: the two pieces of
    state, the memoised [createState], and for each effect the
    dependencies it last ran with ([setupEditor] also its cleanup).
    [null] and [undefined] are both [None].  [dirty] is set when a state
    setter changed something and a render is due. *)
Record Hooks {E : Engine} : Type := mkHooks {
  el : option DomNode;
  editorView : option ViewRef;
  createState : option (string -> EditorState);
  setup_deps : option (option DomNode);
  setup_cleanup : option Cleanup;
  sync_deps : option (string * option nat);
  dirty : bool
}.

(** What can be seen from outside: the calls of [input.onChange] and of
    [view.destroy]. *)
Inductive Event : Type :=
| OnChange (callback : Callback) (value : string)
| Destroy (v : ViewId).

(** The page: the views made so far, where the focus is, which node
    contains which, the hook, a source of new identities, and the
    events. *)
Record World {E : Engine} : Type := mkWorld {
  views : list EditorView;
  activeElement : option DomNode;
  node_contains : DomNode -> DomNode -> bool;
  hooks : Hooks;
  fresh : nat;
  trace : list Event
}.

(** What the closures made during one render see. *)
Record Env {E : Engine} : Type := mkEnv {
  env_input : Input;
  env_translator : Translator;
  env_el : option DomNode;
  env_editorView : option ViewRef;
  env_createState : string -> EditorState
}.

(** The arguments of one render.  [useProsemirrorSchema] and
    [useProsemirrorTranslator] are not part of these sources: what they
    return in a render is given with the arguments. *)
Record Props {E : Engine} : Type := mkProps {
  p_input : Input;
  p_plugins : list TinaPlugin;
  p_schema : Schema;
  p_translator : Translator
}.

Section Hook.
Context {E : Engine} {A : Apply}.

Definition set_views (f : list EditorView -> list EditorView)
    (w : World) : World :=
  {| views := f (views w); activeElement := activeElement w;
     node_contains := node_contains w; hooks := hooks w;
     fresh := fresh w; trace := trace w |}.

Definition set_hooks (f : Hooks -> Hooks) (w : World) : World :=
  {| views := views w; activeElement := activeElement w;
     node_contains := node_contains w; hooks := f (hooks w);
     fresh := fresh w; trace := trace w |}.

Definition emit (e : Event) : M World unit :=
  modify (fun w =>
    {| views := views w; activeElement := activeElement w;
       node_contains := node_contains w; hooks := hooks w;
       fresh := fresh w; trace := trace w ++ [e] |}).

Definition new_object : M World nat :=
  fun w =>
    (Ok (fresh w),
     {| views := views w; activeElement := activeElement w;
        node_contains := node_contains w; hooks := hooks w;
        fresh := S (fresh w); trace := trace w |}).

(** Reading a view through a reference to it.  A reference held by the
    hook always leads to a view; the other case is there because the views
    are kept in a list. *)
Definition deref (v : ViewId) : M World EditorView :=
  fun w =>
    match views w !! v with
    | Some vw => (Ok vw, w)
    | None => (Throw TypeError, w)
    end.

(** *** prosemirror-view, as the hook relies on it *)

(** [new EditorView(el, { state, dispatchTransaction })] *)
Definition EditorView_new (el : DomNode) (st : EditorState)
    (dp : DispatchProps) : M World ViewId :=
  fun w =>
    (Ok (length (views w)),
     set_views (fun vs => vs ++ [ {| dom := el; state := st;
                                     docView := Some DocViewDesc;
                                     dispatchProps := dp |} ]) w).

(** [view.updateState(st)]: "Trying to updateState when the docView dne
    throws an error." *)
Definition EditorView_updateState (v : ViewId) (st : EditorState)
    : M World unit :=
  (vw <- deref v ;;
   match docView vw with
   | None => throw TypeError
   | Some _ =>
       modify (set_views
         (<[ v := {| dom := dom vw; state := st; docView := docView vw;
                     dispatchProps := dispatchProps vw |} ]>))
   end)%js.

(** [view.destroy()]: the call is recorded and the view gives up its
    [docView]. *)
Definition EditorView_destroy (v : ViewId) : M World unit :=
  (vw <- deref v ;;
   emit (Destroy v) ;;;
   modify (set_views
     (<[ v := {| dom := dom vw; state := state vw; docView := None;
                 dispatchProps := dispatchProps vw |} ]>)))%js.

(** *** The state setters *)

(** [setEl(nextEl)] *)
Definition setEl (nextEl : option DomNode) : M World unit :=
  modify (set_hooks (fun h =>
    {| el := nextEl; editorView := editorView h;
       createState := createState h; setup_deps := setup_deps h;
       setup_cleanup := setup_cleanup h; sync_deps := sync_deps h;
       dirty := dirty h || bool_decide (el h <> nextEl) |})).

Definition write_editorView (next : option ViewRef) (changed : bool)
    : M World unit :=
  modify (set_hooks (fun h =>
    {| el := el h; editorView := next;
       createState := createState h; setup_deps := setup_deps h;
       setup_cleanup := setup_cleanup h; sync_deps := sync_deps h;
       dirty := dirty h || changed |})).

(** [setEditorView({ view })] *)
Definition setEditorView (v : ViewId) : M World unit :=
  (id <- new_object ;;
   write_editorView (Some {| ref_id := id; view := v |}) true)%js.

(** [setEditorView(undefined)] *)
Definition setEditorView_undefined : M World unit :=
  (h <- gets hooks ;;
   write_editorView None (bool_decide (editorView h <> None)))%js.

(** *** useProsemirror *)

(** [elRef], memoised in the first render, where [el] is undefined:
    [nextEl !== el] holds for the node and for the [null] that React
    passes. *)
Definition elRef (nextEl : option DomNode) : M World unit :=
  setEl nextEl.

(** The [dispatchTransaction] prop of the view [v]. *)
Definition dispatchTransaction (v : ViewId) (tr : Transaction)
    : M World unit :=
  (vw <- deref v ;;
   let nextState := apply (state vw) tr in
   EditorView_updateState v nextState ;;;
   setEditorView v ;;;
   if tr_docChanged tr
   then emit (OnChange (onChange (dp_input (dispatchProps vw)))
                (stringFromNode (dp_translator (dispatchProps vw))
                   (tr_doc tr)))
   else ret tt)%js.

(** The first effect, [setupEditor]; what it returns is its cleanup. *)
Definition setupEditor (env : Env) : M World (option Cleanup) :=
  match env_el env with
  | None => ret None
  | Some el =>
      (v <- EditorView_new el
              (env_createState env (value (env_input env)))
              {| dp_input := env_input env;
                 dp_translator := env_translator env |} ;;
       setEditorView v ;;;
       ret (Some {| cl_editorView := env_editorView env;
                    cl_view := v |}))%js
  end.

(** The function returned by [setupEditor]. *)
Definition cleanup (c : Cleanup) : M World unit :=
  (setEditorView_undefined ;;;
   match cl_editorView c with
   | Some _ => EditorView_destroy (cl_view c)
   | None => ret tt
   end)%js.

(** The second effect (it has no name in the source): bring the view up
    to date with [input.value].  The test [!editorView.view] has no case
    of its own, a [{ view }] always holds a view. *)
Definition syncEditorState (env : Env) : M World unit :=
  match env_el env with
  | None => ret tt
  | Some el =>
      match env_editorView env with
      | None => ret tt
      | Some r =>
          (vw <- deref (view r) ;;
           match docView vw with
           | None => ret tt
           | Some _ =>
               active <- gets activeElement ;;
               contains <- gets node_contains ;;
               let wysiwygIsActive :=
                 match active with
                 | Some a => contains el a
                 | None => false
                 end in
               if negb wysiwygIsActive
               then EditorView_updateState (view r)
                      (env_createState env (value (env_input env)))
               else ret tt
           end)%js
      end
  end.

(** The body of the hook in one render: it reads the state, keeps the
    [createState] of the first render, and makes the closures. *)
Definition useProsemirror (p : Props) : M World Env :=
  fun w =>
    let h := hooks w in
    let cs :=
      match createState h with
      | Some cs => cs
      | None =>
          fun value =>
            createEditorState (p_schema p) (p_translator p)
              (p_plugins p) value
      end in
    (Ok {| env_input := p_input p;
           env_translator := p_translator p;
           env_el := el h;
           env_editorView := editorView h;
           env_createState := cs |},
     set_hooks (fun h =>
       {| el := el h; editorView := editorView h;
          createState := Some cs; setup_deps := setup_deps h;
          setup_cleanup := setup_cleanup h; sync_deps := sync_deps h;
          dirty := false |}) w).

(** *** React, for this one component *)

(** [setupEditor] is run again when [el] is not what it was; its
    previous cleanup runs first. *)
Definition run_setup (env : Env) : M World unit :=
  (h <- gets hooks ;;
   if bool_decide (setup_deps h = Some (env_el env)) then ret tt
   else
     match setup_cleanup h with
     | Some c => cleanup c
     | None => ret tt
     end ;;;
     c <- setupEditor env ;;
     modify (set_hooks (fun h =>
       {| el := el h; editorView := editorView h;
          createState := createState h;
          setup_deps := Some (env_el env);
          setup_cleanup := c; sync_deps := sync_deps h;
          dirty := dirty h |})))%js.

(** The dependencies of the second effect: [input.value] and the
    identity of [editorView] ([document] is always the same object). *)
Definition deps_of_sync (env : Env) : string * option nat :=
  (value (env_input env), ref_id <$> env_editorView env).

Definition run_sync (env : Env) : M World unit :=
  (h <- gets hooks ;;
   if bool_decide (sync_deps h = Some (deps_of_sync env)) then ret tt
   else
     syncEditorState env ;;;
     modify (set_hooks (fun h =>
       {| el := el h; editorView := editorView h;
          createState := createState h; setup_deps := setup_deps h;
          setup_cleanup := setup_cleanup h;
          sync_deps := Some (deps_of_sync env);
          dirty := dirty h |})))%js.

(** The effects of one render, in the order they are declared. *)
Definition commit (env : Env) : M World unit :=
  (run_setup env ;;; run_sync env)%js.

(** A render of the mounted component, with its effects. *)
Definition render (p : Props) : M World unit :=
  (env <- useProsemirror p ;; commit env)%js.

(** The first render: React attaches the ref to the [node] the
    component rendered before it runs the effects. *)
Definition mount (p : Props) (node : DomNode) : M World unit :=
  (env <- useProsemirror p ;;
   elRef (Some node) ;;;
   commit env)%js.

(** React renders again as long as a state setter changed something. *)
Fixpoint settle (fuel : nat) (p : Props) : M World unit :=
  match fuel with
  | O => ret tt
  | S fuel =>
      (h <- gets hooks ;;
       if dirty h then render p ;;; settle fuel p else ret tt)%js
  end.

(** Unmounting runs the cleanup that [setupEditor] last returned. *)
Definition unmount : M World unit :=
  (h <- gets hooks ;;
   match setup_cleanup h with
   | Some c => cleanup c
   | None => ret tt
   end)%js.

(** A page on which nothing is mounted yet. *)
Definition blank_page (active : option DomNode)
    (contains : DomNode -> DomNode -> bool) : World :=
  {| views := [];
     activeElement := active;
     node_contains := contains;
     hooks := {| el := None; editorView := None; createState := None;
                 setup_deps := None; setup_cleanup := None;
                 sync_deps := None; dirty := false |};
     fresh := 0;
     trace := [] |}.

End Hook.

(** *** An engine to run the hook on

    Documents are plain text, a transaction carries the text it leads to,
    and the translator is the identity. *)
Record TextTransaction : Type := mkTextTransaction {
  text_after : string;
  text_changed : bool
}.

Definition text_engine : Engine :=
  {| Schema := unit;
     PMNode := string;
     TinaPlugin := string;
     Transaction := TextTransaction;
     tr_doc := text_after;
     tr_docChanged := text_changed |}.

Definition text_apply : @Apply text_engine :=
  fun st tr =>
    @EditorState_create text_engine (@schema text_engine st)
      (text_after tr) (@plugins text_engine st).

Definition plain : @Translator text_engine :=
  @mkTranslator text_engine (fun s => s) (fun s => s).

Definition text_props (v : string) : @Props text_engine :=
  @mkProps text_engine
    {| value := v; onChange := 1; onFocus := 2; onBlur := 3 |}
    [] tt plain.

(** A page whose focus is on node 9; a node contains only itself. *)
Definition text_page : @World text_engine :=
  @blank_page text_engine (Some 9) Nat.eqb.

(** The same page once the hook is mounted on node 7 with the value
    ["hello"] and React has settled. *)
Definition text_editor : @World text_engine :=
  snd ((mount (text_props "hello") 7 ;;;
        settle 2 (text_props "hello"))%js text_page).

(** The view of that editor. *)
Definition text_view : @EditorView text_engine :=
  @mkView text_engine 7
    (@createEditorState text_engine tt plain [] "hello")
    (Some DocViewDesc)
    (@mkDispatch text_engine
       {| value := "hello"; onChange := 1; onFocus := 2; onBlur := 3 |}
       plain).

(** The mounted editor after [destroy] was called on its view. *)
Definition text_editor_destroyed : @World text_engine :=
  snd (@EditorView_destroy text_engine 0 text_editor).

(** The mounted editor with the focus inside it. *)
Definition text_editor_focused : @World text_engine :=
  @mkWorld text_engine
    (@views text_engine text_editor) (Some 7)
    (@node_contains text_engine text_editor)
    (@hooks text_engine text_editor)
    (@fresh text_engine text_editor)
    (@trace text_engine text_editor).

End Wysiwyg.

(** * Properties of the media store *)

Module GitMediaFacts.
Import GitMedia.

Section WithClient.
Context {C : Type} `{GitClient C}.

Lemma uploaded_from_length files entries medias :
  uploaded_from files entries medias ->
  length entries = length files /\ length medias = length files.
Proof.
  induction 1 as [|f files response data filename entries medias _ _ _ IH];
    cbn; [done | lia].
Qed.

(** The request at a position of the input, its log entry and its
    descriptor. *)
Lemma uploaded_from_lookup files entries medias i f :
  uploaded_from files entries medias ->
  files !! i = Some f ->
  exists response data filename,
    entries !! i = Some (request_of f, Ok response) /\
    response_json response = Ok data /\
    get data "filename" = Ok filename /\
    medias !! i =
      Some {| src := filename; previewSrc := filename;
              reference := filename |}.
Proof.
  intros Hup; revert i.
  induction Hup as [|f0 files response data filename entries medias
                      Hjson Hget _ IH]; intros i Hi.
  - by rewrite lookup_nil in Hi.
  - destruct i as [|i]; cbn in Hi |- *.
    + injection Hi as ->. by exists response, data, filename.
    + by apply IH.
Qed.

(** The other way round: from a descriptor to the call it came from. *)
Lemma uploaded_from_lookup_media files entries medias i m :
  uploaded_from files entries medias ->
  medias !! i = Some m ->
  exists f response data,
    files !! i = Some f /\
    entries !! i = Some (request_of f, Ok response) /\
    response_json response = Ok data /\
    get data "filename" = Ok (src m) /\
    previewSrc m = src m /\ reference m = src m.
Proof.
  intros Hup; revert i.
  induction Hup as [|f0 files response data filename entries medias
                      Hjson Hget _ IH]; intros i Hi.
  - by rewrite lookup_nil in Hi.
  - destruct i as [|i]; cbn in Hi |- *.
    + injection Hi as <-. by exists f0, response, data.
    + by apply IH.
Qed.

(** One turn of the loop, spelled out. *)
Lemma persist_loop_cons f files uploaded w :
  GitMediaStore.persist_loop (f :: files) uploaded w =
  let (answer, c') := writeMediaToDisk (request_of f) (client (this w)) in
  let w1 := {| this := {| accept := accept (this w); client := c' |};
               calls := calls w ++ [(request_of f, answer)];
               console := console w |} in
  match answer with
  | Throw e => (Throw e, w1)
  | Ok response =>
      match response_json response with
      | Throw e => (Throw e, w1)
      | Ok data =>
          match get data "filename" with
          | Throw e => (Throw e, w1)
          | Ok filename =>
              GitMediaStore.persist_loop files
                (uploaded ++ [ {| src := filename;
                                  previewSrc := filename;
                                  reference := filename |} ]) w1
          end
      end
  end.
Proof.
  destruct f as [fl dir]. cbn [GitMediaStore.persist_loop].
  unfold bind at 1, GitMediaStore.call_writeMediaToDisk, request_of.
  cbn [file directory].
  destruct (writeMediaToDisk _ _) as [[response|e] c']; [|done].
  unfold bind, lift.
  destruct (response_json response) as [data|e]; [|done].
  by destruct (get data "filename").
Qed.

(** A loop that completes has written every file. *)
Lemma persist_loop_Ok files : forall uploaded w ups w',
  GitMediaStore.persist_loop files uploaded w = (Ok ups, w') ->
  exists entries medias,
    uploaded_from files entries medias /\
    ups = uploaded ++ medias /\
    calls w' = calls w ++ entries /\
    console w' = console w /\
    accept (this w') = accept (this w).
Proof.
  induction files as [|f files IH]; intros uploaded w ups w' Hrun.
  - cbn in Hrun. injection Hrun as <- <-.
    exists [], []. rewrite !app_nil_r. repeat split; constructor.
  - rewrite persist_loop_cons in Hrun.
    destruct (writeMediaToDisk _ _) as [[response|e] c']; [|done].
    cbn zeta in Hrun.
    destruct (response_json response) as [data|e] eqn:Hjson; [|done].
    destruct (get data "filename") as [filename|e] eqn:Hget; [|done].
    apply IH in Hrun as (entries & medias & Hup & -> & Hcalls & Hcon & Hacc).
    cbn in Hcalls, Hcon, Hacc.
    eexists (_ :: entries), (_ :: medias). split.
    { by eapply uploaded_cons. }
    rewrite Hcalls, <- !app_assoc. done.
Qed.

(** [persist] is its loop followed by one line on the console. *)
Lemma persist_unfold files w :
  GitMediaStore.persist files w =
  match GitMediaStore.persist_loop files [] w with
  | (Ok ups, w1) =>
      (Ok ups, {| this := this w1; calls := calls w1;
                  console := console w1 ++ [ups] |})
  | (Throw e, w1) => (Throw e, w1)
  end.
Proof.
  unfold GitMediaStore.persist, bind at 1.
  by destruct (GitMediaStore.persist_loop files [] w) as [[ups|e] w1].
Qed.

Lemma answers_cons req reqs (c : C) :
  answers (req :: reqs) c =
  (writeMediaToDisk req c).1 :: answers reqs (writeMediaToDisk req c).2.
Proof. cbn. by destruct (writeMediaToDisk req c). Qed.

(** When every answer is readable the loop completes, and the log grows
    by exactly the requests paired with their answers. *)
Lemma persist_loop_readable files : forall uploaded w,
  Forall readable (answers (map request_of files) (client (this w))) ->
  exists ups w',
    GitMediaStore.persist_loop files uploaded w = (Ok ups, w') /\
    calls w' =
      calls w ++ zip (map request_of files)
                     (answers (map request_of files) (client (this w))).
Proof.
  induction files as [|f files IH]; intros uploaded w Hall.
  - eexists _, _. split; [done|]. cbn. by rewrite app_nil_r.
  - rewrite persist_loop_cons. cbn [map] in *.
    rewrite answers_cons in *.
    destruct (writeMediaToDisk _ _) as [answer c']. cbn [fst snd] in *.
    apply Forall_cons in Hall as [(response & data & filename & -> & -> & ->) Hall].
    cbn zeta.
    edestruct IH as (ups & w' & -> & Hcalls); [exact Hall|].
    exists ups, w'. split; [done|]. rewrite Hcalls. cbn.
    by rewrite <- app_assoc.
Qed.

(** When the answers before position [i] are readable and the write at
    position [i] is rejected, the loop stops there. *)
Lemma persist_loop_rejected i : forall files uploaded w e,
  i < length files ->
  Forall readable
    (take i (answers (map request_of files) (client (this w)))) ->
  answers (map request_of files) (client (this w)) !! i = Some (Throw e) ->
  exists w',
    GitMediaStore.persist_loop files uploaded w = (Throw e, w') /\
    calls w' =
      calls w ++ zip (map request_of (take (S i) files))
                     (take (S i)
                        (answers (map request_of files)
                                 (client (this w)))) /\
    console w' = console w.
Proof.
  induction i as [|i IH]; intros [|f files] uploaded w e Hlen Hall Hi;
    cbn [length] in Hlen; try lia;
    rewrite persist_loop_cons; cbn [map] in *;
    rewrite answers_cons in *;
    destruct (writeMediaToDisk _ _) as [answer c']; cbn [fst snd] in *.
  - cbn in Hi. injection Hi as ->. by eexists.
  - cbn [take] in Hall.
    apply Forall_cons in Hall as [(response & data & filename & -> & -> & ->) Hall].
    cbn zeta. cbn in Hi.
    edestruct IH as (w' & -> & Hcalls & Hcon); [|exact Hall|exact Hi|]; [lia|].
    exists w'. split; [done|]. rewrite Hcalls, Hcon. cbn.
    by rewrite <- app_assoc.
Qed.

(** C1. Whenever the writes of the given uploads are all answered
    readably, [persist] returns, and what it returns has one descriptor
    per upload, in the order of the uploads: the descriptor at position
    [i] is built from the answer to the request made for the upload at
    position [i], which is the [i]-th call that this run added to the
    log. *)
Theorem persist_one_descriptor_per_upload files (w : World C) :
  Forall readable (answers (map request_of files) (client (this w))) ->
  exists ups w',
    GitMediaStore.persist files w = (Ok ups, w') /\
    length ups = length files /\
    length (calls w') = length (calls w) + length files /\
    forall i f, files !! i = Some f ->
      exists response data filename,
        calls w' !! (length (calls w) + i) =
          Some (request_of f, Ok response) /\
        response_json response = Ok data /\
        get data "filename" = Ok filename /\
        ups !! i = Some {| src := filename; previewSrc := filename;
                           reference := filename |}.
Proof.
  intros Hall. rewrite persist_unfold.
  destruct (persist_loop_readable files [] w Hall) as (ups & w1 & Hrun & _).
  rewrite Hrun. eexists _, _. split; [done|]. cbn [calls].
  apply persist_loop_Ok in Hrun
    as (entries & medias & Hup & -> & -> & _ & _).
  destruct (uploaded_from_length _ _ _ Hup) as [Hlen1 Hlen2].
  cbn [app]. rewrite length_app, Hlen1.
  repeat split; [done|].
  intros i f Hi.
  destruct (uploaded_from_lookup _ _ _ _ _ Hup Hi)
    as (response & data & filename & He & Hjson & Hget & Hm).
  exists response, data, filename.
  rewrite lookup_app_r by lia.
  replace (length (calls w) + i - length (calls w)) with i by lia.
  done.
Qed.

Lemma length_answers (reqs : list WriteRequest) : forall c : C,
  length (answers reqs c) = length reqs.
Proof.
  induction reqs as [|req reqs IH]; intros c; [done|].
  rewrite answers_cons. cbn. by rewrite IH.
Qed.

(** C5. When the writes before position [i] are answered readably and the
    write for the upload at position [i] is rejected with [e], [persist]
    ends with [e] and not with a list.  The calls it made are the
    requests of the positions up to [i], each once and in order, the
    last of them being the rejected one; nothing is written to the
    console. *)
Theorem persist_rejected_write files i f e (w : World C) :
  files !! i = Some f ->
  Forall readable
    (take i (answers (map request_of files) (client (this w)))) ->
  answers (map request_of files) (client (this w)) !! i = Some (Throw e) ->
  exists w',
    GitMediaStore.persist files w = (Throw e, w') /\
    map fst (calls w') =
      map fst (calls w) ++ map request_of (take (S i) files) /\
    length (calls w') = length (calls w) + S i /\
    calls w' !! (length (calls w) + i) = Some (request_of f, Throw e) /\
    console w' = console w.
Proof.
  intros Hf Hall Hi. rewrite persist_unfold.
  assert (Hlen : i < length files) by by eapply lookup_lt_Some.
  destruct (persist_loop_rejected i files [] w e Hlen Hall Hi)
    as (w' & -> & Hcalls & Hcon).
  exists w'. split; [done|]. rewrite Hcalls.
  pose proof (length_answers (map request_of files) (client (this w)))
    as Hla.
  rewrite length_map in Hla.
  assert (Hzip : length (map request_of (take (S i) files)) =
                 length (take (S i)
                           (answers (map request_of files)
                                    (client (this w))))).
  { rewrite length_map, !length_take. lia. }
  repeat split; [| | |done].
  - rewrite map_app. f_equal. apply fst_zip. lia.
  - rewrite length_app, length_zip_with, <- Hzip, length_map, length_take.
    lia.
  - rewrite lookup_app_r by lia.
    replace (length (calls w) + i - length (calls w)) with i by lia.
    apply lookup_zip_with_Some. exists (request_of f), (Throw e).
    split; [done|]. split.
    + rewrite list_lookup_fmap, lookup_take_lt by lia. by rewrite Hf.
    + by rewrite lookup_take_lt by lia.
Qed.

(** C6. In the list that [persist] returns, the three fields of every
    descriptor are the same value, and that value is the [filename]
    property of the JSON body of the answer to the call made for the
    upload at the descriptor's position. *)
Theorem persist_fields_are_filename files (w : World C) ups w' i m :
  GitMediaStore.persist files w = (Ok ups, w') ->
  ups !! i = Some m ->
  src m = previewSrc m /\
  previewSrc m = reference m /\
  exists f response data,
    files !! i = Some f /\
    calls w' !! (length (calls w) + i) =
      Some (request_of f, Ok response) /\
    response_json response = Ok data /\
    get data "filename" = Ok (reference m).
Proof.
  rewrite persist_unfold.
  destruct (GitMediaStore.persist_loop files [] w) as [[ups1|e] w1] eqn:Hrun;
    [|done].
  intros [= <- <-] Hm. cbn [calls].
  apply persist_loop_Ok in Hrun
    as (entries & medias & Hup & -> & -> & _ & _).
  cbn [app] in Hm.
  destruct (uploaded_from_lookup_media _ _ _ _ _ Hup Hm)
    as (f & response & data & Hf & He & Hjson & Hget & Hp & Hr).
  rewrite Hp, Hr. repeat split.
  exists f, response, data.
  rewrite lookup_app_r by lia.
  replace (length (calls w) + i - length (calls w)) with i by lia.
  done.
Qed.

(** C7. [find] resolves to the placeholder descriptor whatever it is
    called with, and [list] resolves to the empty list; neither touches
    the world. *)
Theorem find_placeholder_list_empty (args : list value) (w : World C) :
  GitMediaStore.find args w =
    (Ok {| src := Str "test.jpg"; previewSrc := Str "test.jpg";
           reference := Str "test.jpg" |}, w) /\
  GitMediaStore.list w = (Ok [], w).
Proof. done. Qed.

Lemma run_call_accept (c : call) (w : World C) :
  accept (this (run_call c w)) = accept (this w).
Proof.
  destruct c as [| |args|files]; try done.
  cbn [run_call]. rewrite persist_unfold.
  destruct (GitMediaStore.persist_loop files [] w) as [[ups|e] w1] eqn:Hrun.
  - by apply persist_loop_Ok in Hrun as (? & ? & _ & _ & _ & _ & ?).
  - clear -Hrun. revert w Hrun. generalize (@nil Media).
    induction files as [|f files IH]; intros uploaded w Hrun; [done|].
    rewrite persist_loop_cons in Hrun.
    destruct (writeMediaToDisk _ _) as [[response|e1] c'];
      [|by injection Hrun as _ <-].
    cbn zeta in Hrun.
    destruct (response_json response) as [data|e1];
      [|by injection Hrun as _ <-].
    destruct (get data "filename") as [filename|e1];
      [|by injection Hrun as _ <-].
    by apply IH in Hrun.
Qed.

(** C10. A store is constructed with [accept] equal to ["*"], and after
    any sequence of calls of [list], [delete], [find] and [persist] the
    field still has the value it had before. *)
Theorem accept_is_star_and_stays (c : C) calls0 console0 (cs : list call) :
  accept (GitMediaStore.new c) = "*" /\
  (forall w : World C, accept (this (run_calls cs w)) = accept (this w)) /\
  accept (this (run_calls cs {| this := GitMediaStore.new c;
                                 calls := calls0;
                                 console := console0 |})) = "*".
Proof.
  assert (Hinv : forall w : World C,
             accept (this (run_calls cs w)) = accept (this w)).
  { unfold run_calls. induction cs as [|c1 cs IH]; intros w; [done|].
    cbn [fold_left]. by rewrite IH, run_call_accept. }
  split; [done|]. split; [done|]. by rewrite Hinv.
Qed.

End WithClient.

(** The store run on the counting client. *)

Lemma persist_one_descriptor_per_upload_witness :
  exists ups w',
    GitMediaStore.persist (H:=counting_client) [logo; hero] (fresh_world 0)
      = (Ok ups, w') /\
    length ups = 2.
Proof.
  destruct (persist_one_descriptor_per_upload (H:=counting_client)
              [logo; hero] (fresh_world 0))
    as (ups & w' & Hrun & Hlen & _).
  - repeat constructor;
      by eexists _, _, _; split; [reflexivity|].
  - by exists ups, w'.
Defined.

Lemma persist_rejected_write_witness :
  exists w',
    GitMediaStore.persist (H:=counting_client) [logo; blank; hero]
      (fresh_world 0) = (Throw (Rejected "empty file"), w') /\
    map fst (calls w') = [request_of logo; request_of blank].
Proof.
  destruct (persist_rejected_write (H:=counting_client)
              [logo; blank; hero] 1 blank (Rejected "empty file")
              (fresh_world 0))
    as (w' & Hrun & Hcalls & _).
  - reflexivity.
  - repeat constructor. by eexists _, _, _; split; [reflexivity|].
  - reflexivity.
  - by exists w'.
Defined.

Lemma persist_fields_are_filename_witness :
  exists f response data,
    [logo; hero] !! 1 = Some f /\
    calls (GitMediaStore.persist (H:=counting_client) [logo; hero]
             (fresh_world 0)).2 !! 1 = Some (request_of f, Ok response) /\
    response_json response = Ok data /\
    get data "filename" = Ok (Str "content/img/hero.jpg").
Proof.
  destruct (persist_fields_are_filename (H:=counting_client)
              [logo; hero] (fresh_world 0) _ _ 1
              {| src := Str "content/img/hero.jpg";
                 previewSrc := Str "content/img/hero.jpg";
                 reference := Str "content/img/hero.jpg" |}
              eq_refl eq_refl)
    as (_ & _ & f & response & data & Hf & Hcall & Hjson & Hget).
  by exists f, response, data.
Defined.

End GitMediaFacts.

(** * Properties of the Wysiwyg hook *)

Module WysiwygFacts.
Import Wysiwyg.

Section WithEngine.
Context {E : Engine} {A : Apply}.

(** C8. The plugins of the state that [createEditorState] builds are the
    nine written in its body, in that order: the list does not mention
    the value, and it holds history, link handling, the drop and gap
    cursors, table editing and image handling in this order. *)
Theorem createEditorState_plugins (sch : Schema) (tr : Translator)
    (pl : list TinaPlugin) (v : string) :
  plugins (createEditorState sch tr pl v) =
    [ inputRules sch; keymap (buildKeymap sch pl); history; links sch;
      dropCursor 2 "rgb(33, 224, 158)"; gapCursor; tableEditing;
      tablePlugin; imagePlugin ] /\
  (forall v', plugins (createEditorState sch tr pl v') =
              plugins (createEditorState sch tr pl v)) /\
  sublist [ history; links sch; dropCursor 2 "rgb(33, 224, 158)";
            gapCursor; tableEditing; tablePlugin; imagePlugin ]
          (plugins (createEditorState sch tr pl v)).
Proof.
  split; [done|]. split; [done|]. cbn.
  do 2 apply sublist_cons. done.
Qed.

(** [updateState] on a live view. *)
Lemma updateState_live (w : World) v vw st :
  views w !! v = Some vw ->
  docView vw <> None ->
  EditorView_updateState v st w =
    (Ok tt,
     set_views (<[ v := {| dom := dom vw; state := st;
                           docView := docView vw;
                           dispatchProps := dispatchProps vw |} ]>) w).
Proof.
  intros Hv Hlive. unfold EditorView_updateState, bind, deref.
  rewrite Hv. by destruct (docView vw).
Qed.

(** The view that [setupEditor] creates: mounted on [el], in the state
    made from [input.value], with a [dispatchTransaction] that has closed
    over the [input] and the [translator] of the same render. *)
Lemma setupEditor_view (env : Env) (w : World) n :
  env_el env = Some n ->
  views (setupEditor env w).2 =
    views w ++
    [ {| dom := n;
         state := env_createState env (value (env_input env));
         docView := Some DocViewDesc;
         dispatchProps := {| dp_input := env_input env;
                             dp_translator := env_translator env |} |} ].
Proof. intros Hel. unfold setupEditor. by rewrite Hel. Qed.


(** C2. A transaction dispatched to a live view is applied to the state
    of the view, the view takes the resulting state, and the
    [editorView] state is set to a new reference to the view.  When the
    transaction changed the document, [onChange] of the input the view
    was set up with is called once, with the translator's string for the
    document of the transaction; when it did not, nothing is called. *)
Theorem dispatchTransaction_onChange (w : World) v vw tr :
  views w !! v = Some vw ->
  docView vw <> None ->
  exists w',
    dispatchTransaction v tr w = (Ok tt, w') /\
    views w' =
      <[ v := {| dom := dom vw; state := apply (state vw) tr;
                 docView := docView vw;
                 dispatchProps := dispatchProps vw |} ]> (views w) /\
    state <$> views w' !! v = Some (apply (state vw) tr) /\
    editorView (hooks w') = Some {| ref_id := fresh w; view := v |} /\
    trace w' =
      trace w ++
      (if tr_docChanged tr
       then [ OnChange (onChange (dp_input (dispatchProps vw)))
                (stringFromNode (dp_translator (dispatchProps vw))
                   (tr_doc tr)) ]
       else []).
Proof.
  intros Hv Hlive. unfold dispatchTransaction, bind at 1, deref.
  rewrite Hv. unfold bind at 1.
  rewrite (updateState_live w v vw _ Hv Hlive).
  assert (Hlt : v < length (views w)) by by eapply lookup_lt_Some.
  destruct (tr_docChanged tr); eexists; (split; [reflexivity|]); cbn;
    rewrite ?app_nil_r, list_lookup_insert_eq by done; done.
Qed.

(** C9. When the mount element is not set, or there is no [editorView],
    or the view it refers to has no [docView], the second effect returns
    without changing anything, whatever has the focus. *)
Theorem syncEditorState_guards (env : Env) (w : World) :
  env_el env = None \/
  env_editorView env = None \/
  (exists r vw, env_editorView env = Some r /\
                views w !! view r = Some vw /\ docView vw = None) ->
  syncEditorState env w = (Ok tt, w).
Proof.
  unfold syncEditorState.
  intros [-> | [-> | (r & vw & -> & Hv & Hdead)]]; [done| |].
  - by destruct (env_el env).
  - destruct (env_el env); [|done].
    unfold bind, deref. by rewrite Hv, Hdead.
Qed.

(** The second effect never reaches [updateState] on a view without a
    [docView]: it does not throw. *)
Lemma syncEditorState_no_throw (env : Env) (w : World) :
  (forall r, env_editorView env = Some r -> is_Some (views w !! view r)) ->
  exists w', syncEditorState env w = (Ok tt, w').
Proof.
  intros Hheap. unfold syncEditorState.
  destruct (env_el env) as [n|]; [|by eexists].
  destruct (env_editorView env) as [r|]; [|by eexists].
  destruct (Hheap r eq_refl) as [vw Hv].
  unfold bind at 1, deref. rewrite Hv.
  destruct (docView vw) eqn:Hdoc; [|by eexists].
  unfold bind, gets.
  destruct (negb _); [|by eexists].
  rewrite (updateState_live w (view r) vw) by (by rewrite ?Hdoc).
  by eexists.
Qed.

(** The second effect on a live view. *)
Lemma syncEditorState_live (env : Env) (w : World) n r vw :
  env_el env = Some n ->
  env_editorView env = Some r ->
  views w !! view r = Some vw ->
  docView vw <> None ->
  syncEditorState env w =
    (Ok tt,
     if match activeElement w with
        | Some a => node_contains w n a
        | None => false
        end
     then w
     else set_views
            (<[ view r :=
                  {| dom := dom vw;
                     state := env_createState env (value (env_input env));
                     docView := docView vw;
                     dispatchProps := dispatchProps vw |} ]>) w).
Proof.
  intros Hel Hev Hv Hlive. unfold syncEditorState.
  rewrite Hel, Hev. unfold bind at 1, deref. rewrite Hv.
  destruct (docView vw) eqn:Hdoc; [|done].
  unfold bind, gets.
  destruct (match activeElement w with Some a => _ | None => _ end);
    [done|].
  cbn [negb]. rewrite (updateState_live w (view r) vw) by (by rewrite ?Hdoc).
  by rewrite Hdoc.
Qed.

(** C3. In a mounted editor whose view is live, a render with a value
    other than the one last seen leaves the views as they are when the
    mount element contains the focused element, and otherwise gives the
    view the state made from the new value; it calls nothing. *)
Theorem value_update_respects_focus (w : World) (p : Props)
    n r vw sch tr pl old seen :
  el (hooks w) = Some n ->
  editorView (hooks w) = Some r ->
  createState (hooks w) = Some (createEditorState sch tr pl) ->
  setup_deps (hooks w) = Some (Some n) ->
  sync_deps (hooks w) = Some (old, seen) ->
  value (p_input p) <> old ->
  views w !! view r = Some vw ->
  docView vw <> None ->
  exists w',
    render p w = (Ok tt, w') /\
    trace w' = trace w /\
    views w' =
      if match activeElement w with
         | Some a => node_contains w n a
         | None => false
         end
      then views w
      else <[ view r :=
                {| dom := dom vw;
                   state := createEditorState sch tr pl (value (p_input p));
                   docView := docView vw;
                   dispatchProps := dispatchProps vw |} ]> (views w).
Proof.
  intros Hel Hev Hcs Hsetup Hsync Hvalue Hv Hlive.
  unfold render, bind at 1, useProsemirror. rewrite Hcs, Hel, Hev.
  unfold commit, bind at 1, run_setup, bind at 1, gets.
  cbn [hooks set_hooks setup_deps env_el].
  rewrite Hsetup, bool_decide_eq_true_2 by done.
  unfold ret at 1, run_sync, bind at 1, gets.
  cbn [hooks set_hooks sync_deps].
  rewrite Hsync, bool_decide_eq_false_2
    by (unfold deps_of_sync; cbn; congruence).
  unfold bind at 1.
  erewrite syncEditorState_live; [|done|done|exact Hv|exact Hlive].
  cbn [activeElement node_contains set_hooks].
  destruct (match activeElement w with Some a => _ | None => _ end);
    by eexists.
Qed.

(** Once no setter has changed anything, React does not render. *)
Lemma settle_clean fuel (p : Props) (w : World) :
  dirty (hooks w) = false -> settle fuel p w = (Ok tt, w).
Proof.
  intros Hclean. destruct fuel as [|fuel]; [done|].
  cbn [settle]. unfold bind, gets. by rewrite Hclean.
Qed.

(** The cleanup destroys its view exactly when the [editorView] it has
    closed over was set. *)
Lemma cleanup_destroys (c : Cleanup) (w : World) :
  trace (cleanup c w).2 =
    trace w ++
    match cl_editorView c, views w !! cl_view c with
    | Some _, Some _ => [Destroy (cl_view c)]
    | _, _ => []
    end.
Proof.
  unfold cleanup, bind at 1, setEditorView_undefined, bind, gets.
  cbn. destruct (cl_editorView c); cbn; [|by rewrite app_nil_r].
  unfold EditorView_destroy, bind, deref. cbn.
  destruct (views w !! cl_view c); cbn; [done|by rewrite app_nil_r].
Qed.

(** The cleanup that [setupEditor] returns has closed over the
    [editorView] of the render the effect belongs to. *)
Lemma setupEditor_cleanup (env : Env) (w : World) n :
  env_el env = Some n ->
  (setupEditor env w).1 =
    Ok (Some {| cl_editorView := env_editorView env;
                cl_view := length (views w) |}).
Proof. intros Hel. unfold setupEditor. by rewrite Hel. Qed.

(** C4. Mounting the hook on a node, letting React render until it has
    settled, and unmounting: the cleanup runs without an error, yet the
    one view that was created still has its [docView] and [destroy] was
    never called.  The cleanup belongs to the render in which [el] was
    first set, and in that render [editorView] was still undefined. *)
Theorem unmount_leaves_view (p : Props) (node : DomNode) active contains
    fuel :
  let run := (mount p node ;;; settle (2 + fuel) p ;;; unmount)%js
               (blank_page active contains) in
  run.1 = Ok tt /\
  trace run.2 = [] /\
  views run.2 =
    [ {| dom := node;
         state := createEditorState (p_schema p) (p_translator p)
                    (p_plugins p) (value (p_input p));
         docView := Some DocViewDesc;
         dispatchProps := {| dp_input := p_input p;
                             dp_translator := p_translator p |} |} ] /\
  setup_cleanup (hooks run.2) =
    Some {| cl_editorView := None; cl_view := 0 |}.
Proof.
  cbn zeta.
  change (2 + fuel) with (S (S fuel)). cbn [settle].
  cbv [mount render useProsemirror elRef setEl commit run_setup run_sync
       setupEditor syncEditorState deps_of_sync unmount cleanup
       setEditorView setEditorView_undefined write_editorView new_object
       EditorView_new EditorView_updateState EditorView_destroy deref
       emit bind modify gets ret throw set_hooks set_views blank_page].
  cbn -[bool_decide settle].
  repeat (case_bool_decide; try congruence; cbn -[bool_decide settle]).
  destruct (negb _); cbn -[settle];
    (rewrite settle_clean by done); cbn; done.
Qed.

End WithEngine.

(** The hook run on the text engine. *)

Lemma dispatchTransaction_onChange_witness :
  exists w',
    dispatchTransaction (A:=text_apply) 0
      {| text_after := "hello!"; text_changed := true |} text_editor
      = (Ok tt, w') /\
    trace w' = [OnChange 1 "hello!"].
Proof.
  destruct (dispatchTransaction_onChange (E:=text_engine) (A:=text_apply)
              text_editor 0 text_view
              {| text_after := "hello!"; text_changed := true |} eq_refl)
    as (w' & Hrun & _ & _ & _ & Htrace).
  - discriminate.
  - by exists w'.
Defined.

Lemma syncEditorState_guards_witness :
  syncEditorState
    (@mkEnv text_engine (p_input (text_props "bye")) plain (Some 7)
       (Some {| ref_id := 0; view := 0 |})
       (@createEditorState text_engine tt plain []))
    text_editor_destroyed
  = (Ok tt, text_editor_destroyed).
Proof.
  apply (syncEditorState_guards (E:=text_engine)). right. right.
  exists {| ref_id := 0; view := 0 |},
         (@mkView text_engine 7 (@state text_engine text_view) None
            (@dispatchProps text_engine text_view)).
  repeat split; reflexivity.
Defined.

Lemma value_update_respects_focus_witness :
  exists w' : @World text_engine,
    render (text_props "bye") text_editor = (Ok tt, w') /\
    map (fun v => @doc text_engine (@state text_engine v))
        (@views text_engine w') = ["bye"] /\
    exists w'' : @World text_engine,
      render (text_props "bye") text_editor_focused = (Ok tt, w'') /\
      map (fun v => @doc text_engine (@state text_engine v))
          (@views text_engine w'') = ["hello"].
Proof.
  destruct (value_update_respects_focus (E:=text_engine) text_editor
              (text_props "bye") 7 {| ref_id := 0; view := 0 |} text_view
              tt plain [] "hello" (Some 0)
              eq_refl eq_refl eq_refl eq_refl eq_refl)
    as (w' & Hrun & _ & Hviews); [discriminate|reflexivity|discriminate|].
  destruct (value_update_respects_focus (E:=text_engine) text_editor_focused
              (text_props "bye") 7 {| ref_id := 0; view := 0 |} text_view
              tt plain [] "hello" (Some 0)
              eq_refl eq_refl eq_refl eq_refl eq_refl)
    as (w'' & Hrun' & _ & Hviews'); [discriminate|reflexivity|discriminate|].
  exists w'. split; [exact Hrun|]. split; [by rewrite Hviews|].
  exists w''. split; [exact Hrun'|]. by rewrite Hviews'.
Defined.

End WysiwygFacts.

(** * More about the media store *)

Module GitMediaMore.
Import GitMedia GitMediaFacts.

Section WithClient.
Context {C : Type} `{GitClient C}.

(** What the loop leaves in the log, whether it completes or not: the
    first [k] requests with their answers. *)
Lemma persist_loop_log files : forall uploaded (w : World C),
  exists k,
    k <= length files /\
    (files <> [] -> 0 < k) /\
    calls (GitMediaStore.persist_loop files uploaded w).2 =
      calls w ++ take k (zip (map request_of files)
                             (answers (map request_of files)
                                      (client (this w)))) /\
    console (GitMediaStore.persist_loop files uploaded w).2 = console w /\
    (forall ups, (GitMediaStore.persist_loop files uploaded w).1 = Ok ups ->
                 k = length files).
Proof.
  induction files as [|f files IH]; intros uploaded w.
  - exists 0. cbn. by rewrite app_nil_r.
  - rewrite persist_loop_cons. cbn [map]. rewrite answers_cons.
    destruct (writeMediaToDisk _ _) as [answer c']. cbn [fst snd].
    assert (Hstop : forall e,
      exists k, k <= length (f :: files) /\ (f :: files <> [] -> 0 < k) /\
        calls (Throw e : outcome (list Media),
               {| this := {| accept := accept (this w); client := c' |};
                  calls := calls w ++ [(request_of f, answer)];
                  console := console w |}).2 =
          calls w ++ take k (zip (request_of f :: map request_of files)
                                 (answer :: answers (map request_of files) c')) /\
        console (Throw e : outcome (list Media),
               {| this := {| accept := accept (this w); client := c' |};
                  calls := calls w ++ [(request_of f, answer)];
                  console := console w |}).2 = console w /\
        (forall ups, (Throw e : outcome (list Media),
               {| this := {| accept := accept (this w); client := c' |};
                  calls := calls w ++ [(request_of f, answer)];
                  console := console w |}).1 = Ok ups ->
                     k = length (f :: files))).
    { intros e. exists 1. cbn. repeat split; [lia|lia|done]. }
    destruct answer as [response|e]; [|apply Hstop].
    destruct (response_json response) as [data|e]; [|apply Hstop].
    destruct (get data "filename") as [filename|e]; [|apply Hstop].
    cbn zeta.
    destruct (IH (uploaded ++ [ {| src := filename; previewSrc := filename;
                                  reference := filename |} ])
                 {| this := {| accept := accept (this w); client := c' |};
                    calls := calls w ++ [(request_of f, Ok response)];
                    console := console w |})
      as (k & Hk & _ & Hcalls & Hcon & Hok).
    exists (S k). cbn [length]. repeat split; [lia|lia| |done|].
    + rewrite Hcalls. cbn. by rewrite <- app_assoc.
    + intros ups Hups. by rewrite (Hok ups Hups).
Qed.

(** X1. Whatever the client answers, the calls that a run of [persist]
    adds to the log are the requests of the first [k] uploads, in order and
    each once, paired with the client's answers: no upload is skipped,
    repeated or written out of turn.  At least one call is made when there
    is an upload, and all of them when [persist] returns. *)
Theorem persist_log_is_prefix files (w : World C) :
  exists k,
    k <= length files /\
    (files <> [] -> 0 < k) /\
    calls (GitMediaStore.persist files w).2 =
      calls w ++ take k (zip (map request_of files)
                             (answers (map request_of files)
                                      (client (this w)))) /\
    (forall ups, (GitMediaStore.persist files w).1 = Ok ups ->
                 k = length files).
Proof.
  destruct (persist_loop_log files [] w) as (k & Hk & Hpos & Hcalls & _ & Hok).
  exists k. rewrite persist_unfold.
  destruct (GitMediaStore.persist_loop files [] w) as [[ups|e] w1];
    cbn [fst snd calls] in *; repeat split; try done;
    intros ? _; by apply (Hok ups).
Qed.

(** X2. [persist] writes to the console exactly when it returns, one line,
    which is the list it returns; a run that ends with an error logs
    nothing. *)
Theorem persist_console_line files (w : World C) :
  console (GitMediaStore.persist files w).2 =
    console w ++
    match (GitMediaStore.persist files w).1 with
    | Ok ups => [ups]
    | Throw _ => []
    end.
Proof.
  destruct (persist_loop_log files [] w) as (k & _ & _ & _ & Hcon & _).
  rewrite persist_unfold.
  destruct (GitMediaStore.persist_loop files [] w) as [[ups|e] w1];
    cbn [fst snd console] in *; rewrite Hcon; [done|by rewrite app_nil_r].
Qed.

(** A loop that completes was answered readably throughout. *)
Lemma persist_loop_Ok_readable files : forall uploaded (w : World C) ups w',
  GitMediaStore.persist_loop files uploaded w = (Ok ups, w') ->
  Forall readable (answers (map request_of files) (client (this w))).
Proof.
  induction files as [|f files IH]; intros uploaded w ups w' Hrun;
    [constructor|].
  rewrite persist_loop_cons in Hrun. cbn [map]. rewrite answers_cons.
  destruct (writeMediaToDisk _ _) as [[response|e] c']; [|done].
  cbn zeta in Hrun. cbn [fst snd].
  destruct (response_json response) as [data|e] eqn:Hjson; [|done].
  destruct (get data "filename") as [filename|e] eqn:Hget; [|done].
  constructor; [by exists response, data, filename|].
  by apply IH in Hrun.
Qed.

(** X3. [persist] returns a list exactly when every write of the run is
    answered with a response whose JSON body has a [filename] that can be
    read; in every other case it ends with an error. *)
Theorem persist_returns_iff_readable files (w : World C) :
  (exists ups w', GitMediaStore.persist files w = (Ok ups, w')) <->
  Forall readable (answers (map request_of files) (client (this w))).
Proof.
  rewrite persist_unfold. split.
  - intros (ups & w' & Hrun).
    destruct (GitMediaStore.persist_loop files [] w) as [[ups1|e] w1] eqn:Hloop;
      [|done].
    by eapply persist_loop_Ok_readable.
  - intros Hall.
    destruct (persist_loop_readable files [] w Hall) as (ups & w1 & -> & _).
    by eexists _, _.
Qed.

(** When the answers before position [i] are readable and the answer at
    position [i] is a response that cannot be read, the loop stops there. *)
Lemma persist_loop_unreadable i : forall files uploaded (w : World C) response e,
  i < length files ->
  Forall readable
    (take i (answers (map request_of files) (client (this w)))) ->
  answers (map request_of files) (client (this w)) !! i = Some (Ok response) ->
  (response_json response = Throw e \/
   exists data, response_json response = Ok data /\
                get data "filename" = Throw e) ->
  exists w',
    GitMediaStore.persist_loop files uploaded w = (Throw e, w') /\
    calls w' =
      calls w ++ take (S i) (zip (map request_of files)
                                 (answers (map request_of files)
                                          (client (this w)))).
Proof.
  induction i as [|i IH]; intros [|f files] uploaded w response e Hlen Hall Hi Hbad;
    cbn [length] in Hlen; try lia;
    rewrite persist_loop_cons; cbn [map] in *;
    rewrite answers_cons in *;
    destruct (writeMediaToDisk _ _) as [answer c']; cbn [fst snd] in *.
  - cbn in Hi. injection Hi as ->.
    destruct Hbad as [-> | (data & -> & ->)]; by eexists.
  - cbn [take] in Hall.
    apply Forall_cons in Hall as [(r0 & data & filename & -> & -> & ->) Hall].
    cbn zeta. cbn in Hi.
    edestruct IH as (w' & -> & Hcalls); [|exact Hall|exact Hi|exact Hbad|];
      [lia|].
    exists w'. split; [done|]. rewrite Hcalls. cbn. by rewrite <- app_assoc.
Qed.

(** X4. A write that goes through but is answered with a body that is not
    JSON, or with the JSON body [null], ends [persist] as well: with a
    SyntaxError in the first case and a TypeError in the second.  The write
    itself has been made, it is the last call in the log, and no later
    upload is written. *)
Theorem persist_unreadable_body files i f response (w : World C) :
  files !! i = Some f ->
  Forall readable
    (take i (answers (map request_of files) (client (this w)))) ->
  answers (map request_of files) (client (this w)) !! i = Some (Ok response) ->
  parsed_body response = None \/ parsed_body response = Some Null ->
  exists w',
    GitMediaStore.persist files w =
      (Throw match parsed_body response with
             | None => SyntaxError
             | Some _ => TypeError
             end, w') /\
    length (calls w') = length (calls w) + S i /\
    calls w' !! (length (calls w) + i) = Some (request_of f, Ok response).
Proof.
  intros Hf Hall Hi Hbody. rewrite persist_unfold.
  assert (Hlen : i < length files) by by eapply lookup_lt_Some.
  assert (Hbad : response_json response =
                   Throw match parsed_body response with
                         | None => SyntaxError
                         | Some _ => TypeError
                         end \/
                 exists data, response_json response = Ok data /\
                   get data "filename" =
                     Throw match parsed_body response with
                           | None => SyntaxError
                           | Some _ => TypeError
                           end).
  { unfold response_json. destruct Hbody as [-> | ->]; [by left|].
    right. by exists Null. }
  destruct (persist_loop_unreadable i files [] w response _ Hlen Hall Hi Hbad)
    as (w' & -> & Hcalls).
  exists w'. split; [done|]. rewrite Hcalls.
  pose proof (length_answers (map request_of files) (client (this w))) as Hla.
  rewrite length_map in Hla.
  split.
  - rewrite length_app, length_take, length_zip_with, length_map. lia.
  - rewrite lookup_app_r by lia.
    replace (length (calls w) + i - length (calls w)) with i by lia.
    rewrite lookup_take_lt by lia.
    apply lookup_zip_with_Some. exists (request_of f), (Ok response).
    split; [done|]. split; [|done].
    by rewrite list_lookup_fmap, Hf.
Qed.

(** Reading a key that an object does not have. *)
Lemma member_absent key members :
  Forall (fun kv => kv.1 <> key) members -> member key members = Undefined.
Proof.
  induction 1 as [|[k v] members Hk _ IH]; [done|].
  cbn in *. rewrite IH.
  destruct (String.eqb_spec k key); [done|done].
Qed.

(** From a log entry of a completed loop to its descriptor. *)
Lemma uploaded_from_lookup_entry files entries medias i req response :
  uploaded_from files entries medias ->
  entries !! i = Some (req, Ok response) ->
  exists data filename,
    response_json response = Ok data /\
    get data "filename" = Ok filename /\
    medias !! i = Some {| src := filename; previewSrc := filename;
                          reference := filename |}.
Proof.
  intros Hup; revert i.
  induction Hup as [|f0 files r0 data filename entries medias
                      Hjson Hget _ IH]; intros i Hi.
  - by rewrite lookup_nil in Hi.
  - destruct i as [|i]; cbn in Hi |- *.
    + injection Hi as _ <-. by exists data, filename.
    + by apply IH.
Qed.

(** X5. A missing [filename] is not an error.  When [persist] returns and
    the body answered for position [i] is a JSON object without a
    [filename] member, or a JSON string, number, boolean or array, the
    descriptor at position [i] has [undefined] in all three fields. *)
Theorem persist_missing_filename files (w : World C) ups w' i req response
    data :
  GitMediaStore.persist files w = (Ok ups, w') ->
  calls w' !! (length (calls w) + i) = Some (req, Ok response) ->
  parsed_body response = Some data ->
  match data with
  | Obj members => Forall (fun kv => kv.1 <> "filename") members
  | Bool _ | Num _ | Str _ | Arr _ => True
  | Undefined | Null => False
  end ->
  ups !! i = Some {| src := Undefined; previewSrc := Undefined;
                     reference := Undefined |}.
Proof.
  rewrite persist_unfold.
  destruct (GitMediaStore.persist_loop files [] w) as [[ups1|e] w1] eqn:Hrun;
    [|done].
  intros [= <- <-] Hcall Hbody Hdata. cbn [calls] in Hcall.
  apply persist_loop_Ok in Hrun
    as (entries & medias & Hup & -> & Hcalls & _ & _).
  rewrite Hcalls, lookup_app_r in Hcall by lia.
  replace (length (calls w) + i - length (calls w)) with i in Hcall by lia.
  destruct (uploaded_from_lookup_entry _ _ _ _ _ _ Hup Hcall)
    as (d & filename & Hjson & Hget & Hm).
  unfold response_json in Hjson. rewrite Hbody in Hjson.
  injection Hjson as <-. cbn [app]. rewrite Hm.
  destruct data as [| |b|n|s0|items|members]; cbn in Hget; try done;
    injection Hget as <-; try done.
  by rewrite member_absent.
Qed.

(** The loop does not read the console or the descriptors collected so
    far. *)
Lemma persist_loop_frame files : forall uploaded (w : World C) line,
  GitMediaStore.persist_loop files uploaded
    {| this := this w; calls := calls w; console := line |} =
  match GitMediaStore.persist_loop files [] w with
  | (Ok ups, w1) =>
      (Ok (uploaded ++ ups),
       {| this := this w1; calls := calls w1; console := line |})
  | (Throw e, w1) =>
      (Throw e, {| this := this w1; calls := calls w1; console := line |})
  end.
Proof.
  induction files as [|f files IH]; intros uploaded w line.
  - cbn. by rewrite app_nil_r.
  - rewrite !persist_loop_cons. cbn [this calls console client accept].
    destruct (writeMediaToDisk _ _) as [[response|e] c']; [|done].
    cbn zeta.
    destruct (response_json response) as [data|e]; [|done].
    destruct (get data "filename") as [filename|e]; [|done].
    rewrite (IH (uploaded ++ _)
               {| this := {| accept := accept (this w); client := c' |};
                  calls := calls w ++ [(request_of f, Ok response)];
                  console := console w |} line).
    rewrite (IH ([] ++ _)
               {| this := {| accept := accept (this w); client := c' |};
                  calls := calls w ++ [(request_of f, Ok response)];
                  console := console w |} (console w)).
    destruct (GitMediaStore.persist_loop files [] _) as [[ups|e] w1];
      [|done].
    by rewrite <- !app_assoc.
Qed.

(** The descriptors collected so far are only handed on. *)
Lemma persist_loop_acc files uploaded (w : World C) :
  GitMediaStore.persist_loop files uploaded w =
  match GitMediaStore.persist_loop files [] w with
  | (Ok ups, w1) => (Ok (uploaded ++ ups), w1)
  | (Throw e, w1) => (Throw e, w1)
  end.
Proof.
  pose proof (persist_loop_log files [] w) as (k & _ & _ & _ & Hcon & _).
  pose proof (persist_loop_frame files uploaded w (console w)) as Hframe.
  replace {| this := this w; calls := calls w; console := console w |}
    with w in Hframe by by destruct w.
  rewrite Hframe.
  destruct (GitMediaStore.persist_loop files [] w) as [[ups|e] [t c l]];
    cbn in Hcon; by rewrite Hcon.
Qed.

(** The loop over a concatenation is the loop over its parts. *)
Lemma persist_loop_app pre post : forall uploaded (w : World C),
  GitMediaStore.persist_loop (pre ++ post) uploaded w =
  bind (GitMediaStore.persist_loop pre uploaded)
       (GitMediaStore.persist_loop post) w.
Proof.
  induction pre as [|f pre IH]; intros uploaded w; [done|].
  rewrite <- app_comm_cons. unfold bind.
  rewrite !persist_loop_cons.
  destruct (writeMediaToDisk _ _) as [[response|e] c']; [|done].
  cbn zeta.
  destruct (response_json response) as [data|e]; [|done].
  destruct (get data "filename") as [filename|e]; [|done].
  by rewrite IH.
Qed.

(** X6. Uploading in two batches or in one comes to the same thing for the
    client and for the caller: when [persist pre] returns [a] and a second
    [persist post] then returns [b], a single [persist (pre ++ post)] from
    the first world returns [a ++ b], makes the same calls and leaves the
    store in the same state.  Only the console differs: one line instead of
    two. *)
Theorem persist_app pre post (w : World C) a w1 b w2 :
  GitMediaStore.persist pre w = (Ok a, w1) ->
  GitMediaStore.persist post w1 = (Ok b, w2) ->
  exists w',
    GitMediaStore.persist (pre ++ post) w = (Ok (a ++ b), w') /\
    this w' = this w2 /\
    calls w' = calls w2 /\
    console w' = console w ++ [a ++ b] /\
    console w2 = console w ++ [a; b].
Proof.
  rewrite !persist_unfold, persist_loop_app. unfold bind.
  destruct (GitMediaStore.persist_loop pre [] w) as [[a1|e] v1] eqn:Hpre;
    [|done].
  intros [= <- <-].
  pose proof (persist_loop_log pre [] w) as (k & _ & _ & _ & Hcon1 & _).
  rewrite Hpre in Hcon1. cbn [snd] in Hcon1.
  rewrite (persist_loop_frame post [] v1 (console v1 ++ [a1])).
  rewrite (persist_loop_acc post a1 v1).
  pose proof (persist_loop_log post [] v1) as (k2 & _ & _ & _ & Hcon2 & _).
  destruct (GitMediaStore.persist_loop post [] v1) as [[b1|e] v2]; [|done].
  cbn [snd] in Hcon2.
  intros [= <- <-]. eexists. split; [done|]. cbn.
  by rewrite Hcon2, Hcon1, <- app_assoc.
Qed.

(** X7. [list], [delete] and [find] do nothing at all: a sequence of calls
    without a [persist] leaves the store, the client, the log and the
    console exactly as they were.  In particular [delete] deletes
    nothing. *)
Theorem calls_without_persist (cs : list call) (w : World C) :
  Forall (fun c => forall files, c <> CallPersist files) cs ->
  run_calls cs w = w.
Proof.
  unfold run_calls. intros Hcs. revert w.
  induction Hcs as [|c cs Hc _ IH]; intros w; [done|].
  cbn [fold_left]. rewrite IH.
  destruct c as [| |args|files]; try done. by destruct (Hc files).
Qed.

End WithClient.

(** The store run on the two sample clients. *)

Lemma persist_log_is_prefix_witness :
  exists k,
    k <= 3 /\ 0 < k /\
    calls (GitMediaStore.persist (H:=counting_client)
             [logo; blank; hero] (fresh_world 0)).2 =
      take k (zip (map request_of [logo; blank; hero])
                  (answers (H:=counting_client)
                     (map request_of [logo; blank; hero]) 0)).
Proof.
  destruct (persist_log_is_prefix (H:=counting_client) [logo; blank; hero]
              (fresh_world 0)) as (k & Hk & Hpos & Hcalls & _).
  exists k. split; [exact Hk|]. split; [by apply Hpos|exact Hcalls].
Defined.

Lemma persist_returns_iff_readable_witness :
  ~ exists ups w',
      GitMediaStore.persist (H:=counting_client) [logo; blank; hero]
        (fresh_world 0) = (Ok ups, w').
Proof.
  intros Hret.
  apply (persist_returns_iff_readable (H:=counting_client)) in Hret.
  apply Forall_cons in Hret as [_ Hret].
  apply Forall_cons in Hret as [(response & _ & _ & Hbad & _) _].
  discriminate Hbad.
Defined.

Lemma persist_unreadable_body_witness :
  exists w',
    GitMediaStore.persist (H:=careless_client) [logo; raw; hero]
      (fresh_world 0) = (Throw SyntaxError, w') /\
    length (calls w') = 2.
Proof.
  destruct (persist_unreadable_body (H:=careless_client)
              [logo; raw; hero] 1 raw
              {| status := 200; parsed_body := None |} (fresh_world 0))
    as (w' & Hrun & Hlen & _).
  - reflexivity.
  - repeat constructor. by eexists _, _, _; split; [reflexivity|].
  - reflexivity.
  - by left.
  - by exists w'.
Defined.

Lemma persist_missing_filename_witness :
  (GitMediaStore.persist (H:=careless_client) [note] (fresh_world 0)).1 =
    Ok [ {| src := Undefined; previewSrc := Undefined;
            reference := Undefined |} ].
Proof.
  pose proof (persist_missing_filename (H:=careless_client) [note]
                (fresh_world 0) _ _ 0 _ _
                (Obj [("path", Str "note.txt")]) eq_refl eq_refl eq_refl)
    as Hm.
  cbn in Hm. reflexivity.
Defined.

Lemma persist_app_witness :
  exists w',
    GitMediaStore.persist (H:=counting_client) [logo; hero] (fresh_world 0)
      = (Ok ([ {| src := Str "static/logo.png";
                  previewSrc := Str "static/logo.png";
                  reference := Str "static/logo.png" |} ] ++
             [ {| src := Str "content/img/hero.jpg";
                  previewSrc := Str "content/img/hero.jpg";
                  reference := Str "content/img/hero.jpg" |} ]), w') /\
    length (console w') = 1.
Proof.
  destruct (persist_app (H:=counting_client) [logo] [hero] (fresh_world 0)
              _ _ _ _ eq_refl eq_refl)
    as (w' & Hrun & _ & _ & Hcon & _).
  exists w'. split; [exact Hrun|]. by rewrite Hcon.
Defined.

Lemma calls_without_persist_witness :
  run_calls (H:=counting_client) [CallDelete; CallList; CallFind [Str "x"]]
    (fresh_world 3) = fresh_world 3.
Proof.
  apply (calls_without_persist (H:=counting_client)).
  repeat constructor; discriminate.
Defined.

End GitMediaMore.

(** * More about the Wysiwyg hook *)

Module WysiwygMore.
Import Wysiwyg WysiwygFacts.

(** Unfold the hook, the effects and the view operations down to records
    and tests. *)
Ltac unfold_hook :=
  cbv [mount render useProsemirror elRef setEl commit run_setup run_sync
       setupEditor syncEditorState deps_of_sync unmount cleanup
       setEditorView setEditorView_undefined write_editorView new_object
       EditorView_new EditorView_updateState EditorView_destroy deref
       dispatchTransaction
       emit bind modify gets ret throw set_hooks set_views blank_page];
  cbn -[bool_decide settle].

Section WithEngine.
Context {E : Engine} {A : Apply}.

(** What the second effect can change: the state of a view, nothing
    else. *)
Lemma syncEditorState_frame (env : Env) (w : World) :
  trace (syncEditorState env w).2 = trace w /\
  hooks (syncEditorState env w).2 = hooks w /\
  length (views (syncEditorState env w).2) = length (views w).
Proof.
  remember (syncEditorState env w) as run eqn:Hrun.
  unfold syncEditorState in Hrun.
  destruct (env_el env) as [n|]; [|by subst].
  destruct (env_editorView env) as [r|]; [|by subst].
  unfold bind at 1, deref in Hrun.
  destruct (views w !! view r) as [vw|] eqn:Hv; [|by subst].
  destruct (docView vw) eqn:Hdoc; [|by subst].
  unfold bind, gets in Hrun.
  destruct (negb _); [|by subst].
  rewrite (updateState_live w (view r) vw) in Hrun by (by rewrite ?Hdoc).
  subst. cbn. by rewrite length_insert.
Qed.

(** What the cleanup can change: [editorView], and the [docView] of its
    view. *)
Lemma cleanup_frame (c : Cleanup) (w : World) :
  length (views (cleanup c w).2) = length (views w) /\
  createState (hooks (cleanup c w).2) = createState (hooks w) /\
  exists vs, trace (cleanup c w).2 = trace w ++ (Destroy <$> vs) /\
             length vs <= 1.
Proof.
  remember (cleanup c w) as run eqn:Hrun.
  unfold cleanup, bind at 1, setEditorView_undefined, bind at 1, gets in Hrun.
  cbn in Hrun. destruct (cl_editorView c).
  - unfold EditorView_destroy, bind, deref in Hrun. cbn in Hrun.
    destruct (views w !! cl_view c); subst; cbn.
    + rewrite length_insert. repeat split.
      exists [cl_view c]. split; [done|cbn; lia].
    + repeat split. exists []. cbn. rewrite app_nil_r. split; [done|lia].
  - subst. cbn. repeat split. exists []. cbn. rewrite app_nil_r.
    split; [done|lia].
Qed.

(** What [setupEditor] can change: it adds one view when [el] is set. *)
Lemma setupEditor_frame (env : Env) (w : World) :
  trace (setupEditor env w).2 = trace w /\
  createState (hooks (setupEditor env w).2) = createState (hooks w) /\
  length (views (setupEditor env w).2) =
    length (views w) + match env_el env with Some _ => 1 | None => 0 end /\
  exists c, (setupEditor env w).1 = Ok c.
Proof.
  remember (setupEditor env w) as run eqn:Hrun.
  unfold setupEditor in Hrun. destruct (env_el env) as [n|]; subst; cbn.
  - rewrite length_app. cbn. repeat split. by eexists.
  - repeat split; [lia|by eexists].
Qed.

(** The first effect, as React runs it. *)
Lemma run_setup_frame (env : Env) (w : World) :
  createState (hooks (run_setup env w).2) = createState (hooks w) /\
  (exists vs, trace (run_setup env w).2 = trace w ++ (Destroy <$> vs) /\
              length vs <= 1) /\
  length (views w) <= length (views (run_setup env w).2) /\
  length (views (run_setup env w).2) <= length (views w) + 1 /\
  (env_el env = None ->
   length (views (run_setup env w).2) = length (views w)) /\
  (setup_deps (hooks w) = Some (env_el env) ->
   length (views (run_setup env w).2) = length (views w) /\
   trace (run_setup env w).2 = trace w).
Proof.
  remember (run_setup env w) as run eqn:Hrun.
  unfold run_setup, bind at 1, gets in Hrun.
  case_bool_decide as Hdeps.
  { subst. cbn. repeat split; try lia. exists []. cbn. rewrite app_nil_r.
    split; [done|lia]. }
  set (pre := match setup_cleanup (hooks w) with
              | Some c => cleanup c
              | None => ret tt
              end) in Hrun.
  assert (Hpre : length (views (pre w).2) = length (views w) /\
                 createState (hooks (pre w).2) = createState (hooks w) /\
                 exists vs, trace (pre w).2 = trace w ++ (Destroy <$> vs) /\
                            length vs <= 1).
  { subst pre. destruct (setup_cleanup (hooks w)) as [c|].
    - apply cleanup_frame.
    - repeat split. exists []. cbn. rewrite app_nil_r. split; [done|lia]. }
  unfold bind at 1 in Hrun.
  destruct (pre w) as [[u|e] w1]; cbn [snd] in Hpre;
    destruct Hpre as (Hlen & Hcs & vs & Htr & Hvs).
  - unfold bind at 1 in Hrun.
    destruct (setupEditor_frame env w1) as (Htr2 & Hcs2 & Hlen2 & c & Hc).
    destruct (setupEditor env w1) as [[c1|e] w2]; cbn [fst snd] in *; [|done].
    subst. cbn. rewrite Hcs2, Hcs, Htr2, Hlen2, Hlen.
    repeat split; try done; try (destruct (env_el env); lia).
    + by exists vs.
    + intros ->. lia.
  - subst. cbn. rewrite Hcs, Hlen. repeat split; try done; try lia.
    by exists vs.
Qed.

(** The second effect, as React runs it. *)
Lemma run_sync_frame (env : Env) (w : World) :
  trace (run_sync env w).2 = trace w /\
  createState (hooks (run_sync env w).2) = createState (hooks w) /\
  length (views (run_sync env w).2) = length (views w).
Proof.
  remember (run_sync env w) as run eqn:Hrun.
  unfold run_sync, bind at 1, gets in Hrun.
  case_bool_decide as Hdeps; [by subst|].
  unfold bind at 1 in Hrun.
  destruct (syncEditorState_frame env w) as (Htr & Hh & Hlen).
  destruct (syncEditorState env w) as [[u|e] w1]; cbn [snd] in *; subst; cbn;
    by rewrite ?Htr, ?Hh, ?Hlen.
Qed.

(** One render, effects included. *)
Lemma render_frame (p : Props) (w : World) :
  createState (hooks (render p w).2) =
    Some (default (createEditorState (p_schema p) (p_translator p)
                     (p_plugins p))
                  (createState (hooks w))) /\
  (exists vs, trace (render p w).2 = trace w ++ (Destroy <$> vs) /\
              length vs <= 1) /\
  length (views w) <= length (views (render p w).2) /\
  length (views (render p w).2) <= length (views w) + 1 /\
  (el (hooks w) = None ->
   length (views (render p w).2) = length (views w)) /\
  (setup_deps (hooks w) = Some (el (hooks w)) ->
   length (views (render p w).2) = length (views w) /\
   trace (render p w).2 = trace w).
Proof.
  remember (render p w) as run eqn:Hrun.
  unfold render, bind at 1, useProsemirror in Hrun.
  match type of Hrun with
  | context [commit ?e ?w0] => set (env := e) in Hrun; set (v0 := w0) in Hrun
  end.
  unfold commit, bind in Hrun.
  destruct (run_setup_frame env v0)
    as (Hcs & (vs & Htr & Hvs) & Hle1 & Hle2 & Hnone & Hsame).
  destruct (run_setup env v0) as [[u|e] w1]; cbn [snd] in *.
  - destruct (run_sync_frame env w1) as (Htr2 & Hcs2 & Hlen2).
    subst run env v0. cbn [fst snd] in *. rewrite Hcs2, Hcs, Htr2, Hlen2.
    cbn in *. repeat split; try done;
      first [ by exists vs | by apply Hsame ].
  - subst run env v0. cbn [fst snd] in *. rewrite Hcs.
    cbn in *. repeat split; try done;
      first [ by exists vs | by apply Hsame ].
Qed.

(** X8. A render calls no callback of the input: the only events it can
    add are calls of [destroy], and at most one of them.  An update of
    [input.value] from outside therefore never comes back as
    [onChange]. *)
Theorem render_calls_no_callback (p : Props) (w : World) :
  exists vs,
    trace (render p w).2 = trace w ++ (Destroy <$> vs) /\ length vs <= 1.
Proof. by destruct (render_frame p w) as (_ & Htr & _). Qed.

(** X9. A render never removes a view and creates at most one.  It
    creates none while [el] is not set, and none when [el] is what
    [setupEditor] last ran with; in the second case it does not call
    [destroy] either. *)
Theorem render_view_count (p : Props) (w : World) :
  length (views w) <= length (views (render p w).2) /\
  length (views (render p w).2) <= length (views w) + 1 /\
  (el (hooks w) = None ->
   length (views (render p w).2) = length (views w)) /\
  (setup_deps (hooks w) = Some (el (hooks w)) ->
   length (views (render p w).2) = length (views w) /\
   trace (render p w).2 = trace w).
Proof. by destruct (render_frame p w) as (_ & _ & Hrest). Qed.

(** X10. [createState] is made once.  After a render it is the function
    the hook already had, and on the first render the one built from that
    render's schema, translator and plugins; schemas, translators and
    plugins passed to later renders are not used for it. *)
Theorem createState_is_fixed (p : Props) (w : World) :
  createState (hooks (render p w).2) =
    Some (default (createEditorState (p_schema p) (p_translator p)
                     (p_plugins p))
                  (createState (hooks w))).
Proof. by destruct (render_frame p w) as (Hcs & _). Qed.

(** X11. Mounting the hook on a node and letting React settle gives one
    view, mounted on that node, live, in the state made from
    [input.value], with a [dispatchTransaction] closed over the input and
    the translator of that render; [editorView] refers to it, nothing has
    been called, and no further render is due. *)
Theorem mount_creates_one_view (p : Props) (node : DomNode) active contains
    fuel :
  let run := (mount p node ;;; settle (2 + fuel) p)%js
               (blank_page active contains) in
  run.1 = Ok tt /\
  views run.2 =
    [ {| dom := node;
         state := createEditorState (p_schema p) (p_translator p)
                    (p_plugins p) (value (p_input p));
         docView := Some DocViewDesc;
         dispatchProps := {| dp_input := p_input p;
                             dp_translator := p_translator p |} |} ] /\
  trace run.2 = [] /\
  hooks run.2 =
    {| el := Some node;
       editorView := Some {| ref_id := 0; view := 0 |};
       createState := Some (createEditorState (p_schema p) (p_translator p)
                              (p_plugins p));
       setup_deps := Some (Some node);
       setup_cleanup := Some {| cl_editorView := None; cl_view := 0 |};
       sync_deps := Some (value (p_input p), Some 0);
       dirty := false |}.
Proof.
  cbn zeta.
  change (2 + fuel) with (S (S fuel)). cbn [settle].
  unfold_hook.
  repeat (case_bool_decide; try congruence; cbn -[bool_decide settle]).
  destruct (negb _); cbn -[settle];
    (rewrite settle_clean by done); cbn; done.
Qed.


(** The world after a transaction was dispatched to a live view. *)
Lemma dispatch_live_world (w : World) v vw tr :
  views w !! v = Some vw ->
  docView vw <> None ->
  dispatchTransaction v tr w =
    (Ok tt,
     {| views := <[ v := {| dom := dom vw; state := apply (state vw) tr;
                            docView := docView vw;
                            dispatchProps := dispatchProps vw |} ]> (views w);
        activeElement := activeElement w;
        node_contains := node_contains w;
        hooks := {| el := el (hooks w);
                    editorView := Some {| ref_id := fresh w; view := v |};
                    createState := createState (hooks w);
                    setup_deps := setup_deps (hooks w);
                    setup_cleanup := setup_cleanup (hooks w);
                    sync_deps := sync_deps (hooks w);
                    dirty := true |};
        fresh := S (fresh w);
        trace := trace w ++
          (if tr_docChanged tr
           then [ OnChange (onChange (dp_input (dispatchProps vw)))
                    (stringFromNode (dp_translator (dispatchProps vw))
                       (tr_doc tr)) ]
           else []) |}).
Proof.
  intros Hv Hlive. unfold dispatchTransaction, bind at 1, deref.
  rewrite Hv. unfold bind at 1.
  rewrite (updateState_live w v vw _ Hv Hlive).
  destruct (tr_docChanged tr); cbn; cbv [emit modify ret set_hooks];
    cbv beta iota; cbn [hooks dirty]; rewrite ?app_nil_r, ?orb_true_r; done.
Qed.

(** A render in which only the second effect is due, on a live view. *)
Lemma render_sync_due (w : World) (p : Props) n r vw cs :
  el (hooks w) = Some n ->
  editorView (hooks w) = Some r ->
  createState (hooks w) = Some cs ->
  setup_deps (hooks w) = Some (Some n) ->
  sync_deps (hooks w) <> Some (value (p_input p), Some (ref_id r)) ->
  views w !! view r = Some vw ->
  docView vw <> None ->
  exists w',
    render p w = (Ok tt, w') /\
    trace w' = trace w /\
    views w' =
      if match activeElement w with
         | Some a => node_contains w n a
         | None => false
         end
      then views w
      else <[ view r :=
                {| dom := dom vw;
                   state := cs (value (p_input p));
                   docView := docView vw;
                   dispatchProps := dispatchProps vw |} ]> (views w).
Proof.
  intros Hel Hev Hcs Hsetup Hsync Hv Hlive.
  unfold render, bind at 1, useProsemirror. rewrite Hcs, Hel, Hev.
  unfold commit, bind at 1, run_setup, bind at 1, gets.
  cbn [hooks set_hooks setup_deps env_el].
  rewrite Hsetup, bool_decide_eq_true_2 by done.
  unfold ret at 1, run_sync, bind at 1, gets.
  cbn [hooks set_hooks sync_deps].
  rewrite bool_decide_eq_false_2 by done.
  unfold bind at 1.
  erewrite syncEditorState_live; [|done|done|exact Hv|exact Hlive].
  cbn [activeElement node_contains set_hooks].
  destruct (match activeElement w with Some a => _ | None => _ end);
    by eexists.
Qed.

(** X13. Every dispatched transaction makes the second effect run at the
    next render, because [editorView] is set to a new object.  When the
    mount element contains the focused element the view keeps the state
    the transaction led to; otherwise that state is replaced by the one
    made from the [input.value] of the render. *)
Theorem dispatch_then_render (w : World) (p : Props) v vw tr n sch tl pl
    seen :
  views w !! v = Some vw ->
  docView vw <> None ->
  el (hooks w) = Some n ->
  createState (hooks w) = Some (createEditorState sch tl pl) ->
  setup_deps (hooks w) = Some (Some n) ->
  sync_deps (hooks w) = Some seen ->
  seen.2 <> Some (fresh w) ->
  exists w',
    (dispatchTransaction v tr ;;; render p)%js w = (Ok tt, w') /\
    state <$> views w' !! v =
      Some (if match activeElement w with
               | Some a => node_contains w n a
               | None => false
               end
            then apply (state vw) tr
            else createEditorState sch tl pl (value (p_input p))) /\
    trace w' =
      trace w ++
      (if tr_docChanged tr
       then [ OnChange (onChange (dp_input (dispatchProps vw)))
                (stringFromNode (dp_translator (dispatchProps vw))
                   (tr_doc tr)) ]
       else []).
Proof.
  intros Hv Hlive Hel Hcs Hsetup Hsync Hseen.
  assert (Hlt : v < length (views w)) by by eapply lookup_lt_Some.
  unfold bind at 1. rewrite (dispatch_live_world w v vw tr Hv Hlive).
  match goal with
  | |- context [render p ?w1] =>
      destruct (render_sync_due w1 p n {| ref_id := fresh w; view := v |}
                  {| dom := dom vw; state := apply (state vw) tr;
                     docView := docView vw;
                     dispatchProps := dispatchProps vw |}
                  (createEditorState sch tl pl))
        as (w' & Hrun & Htrace & Hviews)
  end; cbn [hooks views el editorView createState setup_deps sync_deps
            ref_id view docView]; try done.
  - rewrite Hsync. destruct seen; cbn in *; congruence.
  - by apply list_lookup_insert_eq.
  - exists w'. split; [exact Hrun|]. split; [|exact Htrace].
    rewrite Hviews. cbn [activeElement node_contains dom state docView
      dispatchProps views view].
    destruct (match activeElement w with Some a => _ | None => _ end).
    + by rewrite list_lookup_insert_eq.
    + by rewrite list_insert_insert_eq, list_lookup_insert_eq.
Qed.

(** X14. When React moves the ref to another node in one commit
    ([elRef(null)] and [elRef(b)] before the next render), [setupEditor]
    runs again: the cleanup of the first run leaves the first view alone,
    a second view is created on the new node, and the cleanup of this
    second run, which has seen an [editorView], destroys the second view
    at unmount.  The first view is never destroyed. *)
Theorem remount_destroys_second_view (p : Props) (a b : DomNode) active
    contains fuel fuel' :
  a <> b ->
  let run := (mount p a ;;; settle (2 + fuel) p ;;;
              elRef None ;;; elRef (Some b) ;;; settle (2 + fuel') p ;;;
              unmount)%js (blank_page active contains) in
  run.1 = Ok tt /\
  trace run.2 = [Destroy 1] /\
  (dom <$> views run.2) = [a; b] /\
  (docView <$> views run.2) = [Some DocViewDesc; None].
Proof.
  intros Hab. cbn zeta.
  change (2 + fuel) with (S (S fuel)). change (2 + fuel') with (S (S fuel')).
  cbn [settle].
  unfold_hook.
  repeat (first [ case_bool_decide; try congruence
                | progress (rewrite settle_clean by done)
                | match goal with
                  | |- context [negb ?b] => destruct (negb b)
                  end ];
          cbn -[bool_decide settle]).
  all: done.
Qed.

End WithEngine.

(** The hook run on the text engine. *)

Lemma render_view_count_witness :
  length (@views text_engine (render (text_props "bye") text_editor).2) =
    length (@views text_engine text_editor) /\
  @trace text_engine (render (text_props "bye") text_editor).2 =
    @trace text_engine text_editor.
Proof.
  destruct (render_view_count (E:=text_engine) (text_props "bye") text_editor)
    as (_ & _ & _ & Hsame).
  apply Hsame. vm_compute. reflexivity.
Defined.


Lemma dispatch_then_render_witness :
  exists w' : @World text_engine,
    (dispatchTransaction (A:=text_apply) 0
       {| text_after := "hello!"; text_changed := true |} ;;;
     render (text_props "hello"))%js text_editor = (Ok tt, w') /\
    option_map (fun v => @doc text_engine (@state text_engine v))
      (@views text_engine w' !! 0) = Some "hello" /\
    @trace text_engine w' = [OnChange 1 "hello!"].
Proof.
  pose proof (dispatch_then_render (E:=text_engine) (A:=text_apply)
                text_editor (text_props "hello") 0 text_view
                {| text_after := "hello!"; text_changed := true |}
                7 tt plain [] ("hello", Some 0)) as Hthm.
  destruct Hthm as (w' & Hrun & Hstate & Htrace).
  1: (vm_compute; reflexivity).
  1: discriminate.
  1-4: (vm_compute; reflexivity).
  1: discriminate.
  exists w'. split; [exact Hrun|]. split.
  - transitivity (option_map (@doc text_engine)
                    (@state text_engine <$> (@views text_engine w' !! 0))).
    { by destruct (@views text_engine w' !! 0). }
    etransitivity; [exact (f_equal _ Hstate)|].
    vm_compute. reflexivity.
  - rewrite Htrace. vm_compute. reflexivity.
Defined.

Lemma remount_destroys_second_view_witness :
  let run := (mount (text_props "hello") 7 ;;;
              settle (2 + 0) (text_props "hello") ;;;
              elRef None ;;; elRef (Some 8) ;;;
              settle (2 + 0) (text_props "hello") ;;;
              unmount)%js (@blank_page text_engine (Some 9) Nat.eqb) in
  @trace text_engine run.2 = [Destroy 1].
Proof.
  pose proof (remount_destroys_second_view (E:=text_engine)
                (text_props "hello") 7 8 (Some 9) Nat.eqb 0 0) as Hthm.
  destruct Hthm as (_ & Htrace & _).
  1: discriminate.
  exact Htrace.
Defined.

End WysiwygMore.
